(** * BezierTS: the Bezier evaluators and the Heartbeat-driven animator

    A shallow embedding of [src/index.ts] (classes [BezierCurve] and
    [BezierPositions]) and the properties of its play/stop/tick life cycle.

    Numbers.  Luau numbers are modelled as exact rationals in canonical
    form ([Qc]), so that equality of numbers and vectors is Leibniz
    equality and every definition computes.  Rounding, infinities and NaN
    are outside the model; in particular [x / 0] is [0] here, which is why
    the statements about ticks are made for a positive [duration].

    Runtime.  [Vector3], [math.clamp] and [RunService.Heartbeat] belong to
    the Roblox runtime.  They are modelled by their documented behaviour:
    component-wise vector arithmetic, the two comparisons of [math.clamp],
    and a signal that holds the connected listeners and calls each of them
    on every frame.

    Callbacks.  The callback handed to [play] is user code.  It is
    represented by a token, and calling it appends an event to the trace of
    the world; a callback that re-enters the animator is not modelled. *)

From Stdlib Require Import QArith Qcanon List Bool Arith Lia.
From Stdlib Require Import Lqa.
Import ListNotations.

Local Open Scope Qc_scope.

(** ** Numbers *)

(** [x < y] and [x >= y] as the booleans the source branches on. *)
Definition ltb (x y : Qc) : bool :=
  match x ?= y with Lt => true | _ => false end.

Definition geb (x y : Qc) : bool :=
  match x ?= y with Lt => false | _ => true end.

Definition gtb (x y : Qc) : bool := ltb y x.

Module math.

(** Luau's [math.clamp(v, min, max)]:
    [r = v < min ? min : v; r = r > max ? max : r]. *)
Definition clamp (v min max : Qc) : Qc :=
  let r := if ltb v min then min else v in
  if gtb r max then max else r.

End math.

(** ** Vector3 *)

Module Vector3.

Record vec : Type := new { X : Qc; Y : Qc; Z : Qc }.

Definition zero : vec := new 0 0 0.

(** [v.mul(k)]: multiplication by a number. *)
Definition mul (v : vec) (k : Qc) : vec :=
  new (X v * k) (Y v * k) (Z v * k).

(** [v.add(w)]. *)
Definition add (v w : vec) : vec :=
  new (X v + X w) (Y v + Y w) (Z v + Z w).

End Vector3.

(** ** BezierPositions *)

Module BezierPositions.

Record obj : Type := new {
  p0 : Vector3.vec;
  p1 : Vector3.vec;
  p2 : option Vector3.vec;
  p3 : option Vector3.vec
}.

End BezierPositions.

(** ** The tick source *)

(** A connection handle returned by [Heartbeat.Connect]. *)
Definition RBXScriptConnection : Type := nat.

(** The token of a user callback [(endedNaturally: boolean) => void]. *)
Definition Callback : Type := nat.

(** What the outside world observes, in order.  The handle in [Called]
    tells which [play()] call the invoking closure belongs to. *)
Inductive Event : Type :=
| Connected (c : RBXScriptConnection) (callback : option Callback)
| Disconnected (c : RBXScriptConnection)
| Called (c : RBXScriptConnection) (callback : Callback) (endedNaturally : bool).

(** A connected listener: the arrow function created by one [play()] call,
    which is determined by the [callback] it captured. *)
Record Listener : Type := mkListener {
  conn : RBXScriptConnection;
  captured : option Callback
}.

(** ** BezierCurve: fields and static evaluators *)

Module BezierCurve.

Record obj : Type := mk {
  p0 : Vector3.vec;
  p1 : Vector3.vec;
  p2 : option Vector3.vec;
  p3 : option Vector3.vec;
  t : Qc;
  duration : Qc;
  position : Vector3.vec;
  connection : option RBXScriptConnection;
  wantToStop : bool
}.

Definition set_t (v : Qc) (o : obj) : obj :=
  mk (p0 o) (p1 o) (p2 o) (p3 o) v (duration o) (position o)
     (connection o) (wantToStop o).

Definition set_position (v : Vector3.vec) (o : obj) : obj :=
  mk (p0 o) (p1 o) (p2 o) (p3 o) (t o) (duration o) v
     (connection o) (wantToStop o).

Definition set_connection (v : option RBXScriptConnection) (o : obj) : obj :=
  mk (p0 o) (p1 o) (p2 o) (p3 o) (t o) (duration o) (position o)
     v (wantToStop o).

Definition set_wantToStop (v : bool) (o : obj) : obj :=
  mk (p0 o) (p1 o) (p2 o) (p3 o) (t o) (duration o) (position o)
     (connection o) v.

(** The constructor: the field initialisers, then the assignments. *)
Definition new (duration : Qc) (positions : BezierPositions.obj) : obj :=
  mk (BezierPositions.p0 positions) (BezierPositions.p1 positions)
     (BezierPositions.p2 positions) (BezierPositions.p3 positions)
     0 duration (BezierPositions.p0 positions) None false.

Definition quadraticBezier (t : Qc) (p0 p1 p2 : Vector3.vec) : Vector3.vec :=
  let oneMinusT := 1 - t in
  Vector3.add
    (Vector3.add (Vector3.mul p0 (oneMinusT * oneMinusT))
                 (Vector3.mul p1 (Q2Qc 2 * oneMinusT * t)))
    (Vector3.mul p2 (t * t)).

Definition linearBezier (t : Qc) (p0 p1 : Vector3.vec) : Vector3.vec :=
  Vector3.add (Vector3.mul p0 (1 - t)) (Vector3.mul p1 t).

Definition cubicBezier (t : Qc) (p0 p1 p2 p3 : Vector3.vec) : Vector3.vec :=
  let oneMinusT := 1 - t in
  Vector3.add
    (Vector3.add
       (Vector3.add (Vector3.mul p0 (oneMinusT ^ 3))
                    (Vector3.mul p1 (Q2Qc 3 * oneMinusT ^ 2 * t)))
       (Vector3.mul p2 (Q2Qc 3 * oneMinusT * t ^ 2)))
    (Vector3.mul p3 (t ^ 3)).

End BezierCurve.

(** ** The world: one animator, the Heartbeat signal, the trace *)

Record World : Type := mkWorld {
  curve : BezierCurve.obj;
  Heartbeat : list Listener;
  fresh : RBXScriptConnection;
  trace : list Event
}.

Definition with_curve (f : BezierCurve.obj -> BezierCurve.obj) (w : World) : World :=
  mkWorld (f (curve w)) (Heartbeat w) (fresh w) (trace w).

Definition emit (e : Event) (w : World) : World :=
  mkWorld (curve w) (Heartbeat w) (fresh w) (trace w ++ [e]).

Definition connected (c : RBXScriptConnection) (w : World) : bool :=
  existsb (fun l => Nat.eqb (conn l) c) (Heartbeat w).

(** [RunService.Heartbeat.Connect(handler)]: a new handle, the listener
    appended. *)
Definition Connect (callback : option Callback) (w : World)
  : RBXScriptConnection * World :=
  let c := fresh w in
  (c, mkWorld (curve w) (Heartbeat w ++ [mkListener c callback]) (S c)
              (trace w ++ [Connected c callback])).

(** [connection.Disconnect()]: nothing happens on a handle that is not
    connected. *)
Definition Disconnect (c : RBXScriptConnection) (w : World) : World :=
  if connected c w
  then mkWorld (curve w)
               (filter (fun l => negb (Nat.eqb (conn l) c)) (Heartbeat w))
               (fresh w) (trace w ++ [Disconnected c])
  else w.

(** [callback(endedNaturally)] made by the listener of connection [c]. *)
Definition call (c : RBXScriptConnection) (callback : Callback)
  (endedNaturally : bool) (w : World) : World :=
  emit (Called c callback endedNaturally) w.

(** The arrow function [(dt) => { ... }] of [play], lines 41-69.  [c] is the
    connection it is registered under (used for the trace only). *)
Definition on_heartbeat (c : RBXScriptConnection) (callback : option Callback)
  (dt : Qc) (w : World) : World :=
  let w := with_curve (fun o =>
             BezierCurve.set_t
               (math.clamp (BezierCurve.t o + dt / BezierCurve.duration o) 0 1) o) w in
  let w := with_curve (fun o =>
             match BezierCurve.p2 o, BezierCurve.p3 o with
             | None, None =>
                 BezierCurve.set_position
                   (BezierCurve.linearBezier (BezierCurve.t o)
                      (BezierCurve.p0 o) (BezierCurve.p1 o)) o
             | _, _ => o
             end) w in
  let w := with_curve (fun o =>
             match BezierCurve.p2 o, BezierCurve.p3 o with
             | Some q2, Some q3 =>
                 BezierCurve.set_position
                   (BezierCurve.cubicBezier (BezierCurve.t o)
                      (BezierCurve.p0 o) (BezierCurve.p1 o) q2 q3) o
             | _, _ => o
             end) w in
  let w := with_curve (fun o =>
             match BezierCurve.p2 o, BezierCurve.p3 o with
             | Some q2, None =>
                 BezierCurve.set_position
                   (BezierCurve.quadraticBezier (BezierCurve.t o)
                      (BezierCurve.p0 o) (BezierCurve.p1 o) q2) o
             | _, _ => o
             end) w in
  if geb (BezierCurve.t (curve w)) 1 || BezierCurve.wantToStop (curve w) then
    let w := match BezierCurve.connection (curve w) with
             | Some k => Disconnect k w
             | None => w
             end in
    let w := with_curve (BezierCurve.set_connection None) w in
    if BezierCurve.wantToStop (curve w) then
      match callback with Some f => call c f false w | None => w end
    else
      match callback with Some f => call c f true w | None => w end
  else w.

(** [play(callback?)], lines 37-70. *)
Definition play (callback : option Callback) (w : World) : World :=
  match BezierCurve.connection (curve w) with
  | Some _ => w
  | None =>
      let w := with_curve (BezierCurve.set_t 0) w in
      let '(c, w) := Connect callback w in
      with_curve (BezierCurve.set_connection (Some c)) w
  end.

(** [stop()], lines 76-78. *)
Definition stop (w : World) : World :=
  with_curve (BezierCurve.set_wantToStop true) w.

(** One frame: the signal calls every listener that was connected when the
    frame began and still is when its turn comes. *)
Fixpoint deliver (ls : list Listener) (dt : Qc) (w : World) : World :=
  match ls with
  | [] => w
  | l :: ls' =>
      deliver ls' dt
        (if connected (conn l) w then on_heartbeat (conn l) (captured l) dt w
         else w)
  end.

Definition fire (dt : Qc) (w : World) : World := deliver (Heartbeat w) dt w.

(** What the host can do with an animator. *)
Inductive Op : Type :=
| Play (callback : option Callback)
| Stop
| Tick (dt : Qc).

Definition step (op : Op) (w : World) : World :=
  match op with
  | Play callback => play callback w
  | Stop => stop w
  | Tick dt => fire dt w
  end.

Definition run (ops : list Op) (w : World) : World :=
  fold_left (fun w op => step op w) ops w.

(** [new BezierCurve(duration, positions)] in a world where nothing has
    happened yet. *)
Definition boot (duration : Qc) (positions : BezierPositions.obj) : World :=
  mkWorld (BezierCurve.new duration positions) [] 0%nat [].

(** The worlds an animator of positive duration can be in. *)
Definition reachable (w : World) : Prop :=
  exists duration positions ops,
    0 < duration /\ w = run ops (boot duration positions).

(** ** Reading the trace *)

Definition is_call (c : RBXScriptConnection) (e : Event) : bool :=
  match e with Called k _ _ => Nat.eqb k c | _ => false end.

Definition is_disconnect (c : RBXScriptConnection) (e : Event) : bool :=
  match e with Disconnected k => Nat.eqb k c | _ => false end.

Definition is_connect (c : RBXScriptConnection) (e : Event) : bool :=
  match e with Connected k _ => Nat.eqb k c | _ => false end.

Definition count (f : Event -> bool) (tr : list Event) : nat :=
  length (filter f tr).

(** The number of callback invocations made for the run of connection [c]. *)
Definition calls (c : RBXScriptConnection) (tr : list Event) : nat :=
  count (is_call c) tr.

(** ** The animator of the README example *)

Definition v3 (x y z : Z) : Vector3.vec :=
  Vector3.new (Q2Qc (inject_Z x)) (Q2Qc (inject_Z y)) (Q2Qc (inject_Z z)).

Definition readme_positions : BezierPositions.obj :=
  BezierPositions.new (v3 0 0 0) (v3 0 50 0) None None.

Definition quarter : Qc := Q2Qc (1 # 4).


(** ** The specification's side *)

(** The blends as section 4.1 of the specification writes them, one
    coordinate at a time; [sel] picks the coordinate. *)
Definition spec_linear (sel : Vector3.vec -> Qc) (t : Qc)
  (p0 p1 : Vector3.vec) : Qc :=
  sel p0 * (1 - t) + sel p1 * t.

Definition spec_quadratic (sel : Vector3.vec -> Qc) (t : Qc)
  (p0 p1 p2 : Vector3.vec) : Qc :=
  sel p0 * (1 - t) ^ 2 + sel p1 * (Q2Qc 2 * (1 - t) * t) + sel p2 * t ^ 2.

Definition spec_cubic (sel : Vector3.vec -> Qc) (t : Qc)
  (p0 p1 p2 p3 : Vector3.vec) : Qc :=
  sel p0 * (1 - t) ^ 3 + sel p1 * (Q2Qc 3 * (1 - t) ^ 2 * t)
  + sel p2 * (Q2Qc 3 * (1 - t) * t ^ 2) + sel p3 * t ^ 3.

(** The progress a tick of [dt] seconds moves the animator [o] to. *)
Definition advanced (dt : Qc) (o : BezierCurve.obj) : Qc :=
  math.clamp (BezierCurve.t o + dt / BezierCurve.duration o) 0 1.

(** Whether the tick of [dt] seconds is the last one of the run. *)
Definition ends_run (dt : Qc) (o : BezierCurve.obj) : bool :=
  geb (advanced dt o) 1 || BezierCurve.wantToStop o.

(** The selection table of section 4.2: the position after a tick that
    reached progress [t'], given the control points that are present. *)
Definition selected (o : BezierCurve.obj) (t' : Qc) : Vector3.vec :=
  match BezierCurve.p2 o, BezierCurve.p3 o with
  | None, None =>
      BezierCurve.linearBezier t' (BezierCurve.p0 o) (BezierCurve.p1 o)
  | Some q2, None =>
      BezierCurve.quadraticBezier t' (BezierCurve.p0 o) (BezierCurve.p1 o) q2
  | Some q2, Some q3 =>
      BezierCurve.cubicBezier t' (BezierCurve.p0 o) (BezierCurve.p1 o) q2 q3
  | None, Some _ => BezierCurve.position o
  end.

(** The trace a run-ending tick appends for connection [c]. *)
Definition ending (c : RBXScriptConnection) (callback : option Callback)
  (stopRequested : bool) : list Event :=
  Disconnected c ::
  match callback with
  | Some f => [Called c f (negb stopRequested)]
  | None => []
  end.

Definition nonneg_tick (op : Op) : bool :=
  match op with Tick dt => negb (ltb dt 0) | _ => true end.

Definition is_tick (op : Op) : bool :=
  match op with Tick _ => true | _ => false end.

(** ** Invariants of the life cycle *)

(** The [connection] field and the signal agree: the animator holds no
    handle and has no listener, or holds the handle of its only listener. *)
Definition consistent (w : World) : Prop :=
  match BezierCurve.connection (curve w) with
  | None => Heartbeat w = []
  | Some c => exists callback,
      Heartbeat w = [mkListener c callback] /\
      In (Connected c callback) (trace w)
  end.

Definition live (c : RBXScriptConnection) (w : World) : nat :=
  match BezierCurve.connection (curve w) with
  | Some k => if Nat.eqb k c then 1 else 0
  | None => 0
  end.

(** The bookkeeping of one handle: it is connected at most once and only
    if it was handed out, disconnected only after that and not while it is
    held, and its callback is invoked only when it is disconnected. *)
Definition accounted (w : World) : Prop :=
  forall c,
    (calls c (trace w) <= count (is_disconnect c) (trace w))%nat /\
    (count (is_disconnect c) (trace w) + live c w
       <= count (is_connect c) (trace w))%nat /\
    (count (is_connect c) (trace w) <= if Nat.ltb c (fresh w) then 1 else 0)%nat.

(** The tick transition of section 4.2 on a running animator whose only
    listener is [c] with the captured [callback]: progress advances, the
    position follows the selection table, and on the last tick of the run
    the listener is released and the callback reported. *)
Definition spec_tick (c : RBXScriptConnection) (callback : option Callback)
  (dt : Qc) (w : World) : World :=
  let o := curve w in
  let last := ends_run dt o in
  mkWorld
    (BezierCurve.mk (BezierCurve.p0 o) (BezierCurve.p1 o) (BezierCurve.p2 o)
       (BezierCurve.p3 o) (advanced dt o) (BezierCurve.duration o)
       (selected o (advanced dt o))
       (if last then None else Some c) (BezierCurve.wantToStop o))
    (if last then [] else [mkListener c callback])
    (fresh w)
    (trace w ++ if last then ending c callback (BezierCurve.wantToStop o) else []).

(** The fields that are assigned in the constructor only. *)
Definition geometry (o : BezierCurve.obj) :=
  (BezierCurve.p0 o, BezierCurve.p1 o, BezierCurve.p2 o, BezierCurve.p3 o,
   BezierCurve.duration o).

(** The operations of [ops] that are not frames. *)
Definition without_ticks (ops : list Op) : list Op :=
  filter (fun op => negb (is_tick op)) ops.

(** ** Sample worlds *)

(** The README animator after [play(callback)] with callback token 7. *)
Definition sample_running : World :=
  run [Play (Some 7%nat)] (boot 1 readme_positions).

(** Control points with [p3] but without [p2]. *)
Definition gap_positions : BezierPositions.obj :=
  BezierPositions.new (v3 0 0 0) (v3 0 50 0) None (Some (v3 40 0 0)).

Definition sample_ops : list Op :=
  [Play (Some 7%nat); Tick quarter; Tick quarter].

(** The README animator one frame before its run ends. *)
Definition sample_last : World :=
  run [Play (Some 7%nat); Tick quarter; Tick quarter; Tick quarter]
      (boot 1 readme_positions).

(** ** Further vocabulary *)



(** A callback invocation that reports a natural end. *)
Definition is_natural_call (e : Event) : bool :=
  match e with Called _ _ true => true | _ => false end.

(** The last control point of the shapes that have an evaluator; with p3
    but without p2 there is none and the position stays. *)
Definition last_point (o : BezierCurve.obj) : Vector3.vec :=
  match BezierCurve.p2 o, BezierCurve.p3 o with
  | None, None => BezierCurve.p1 o
  | Some q2, None => q2
  | Some _, Some q3 => q3
  | None, Some _ => BezierCurve.position o
  end.

(** Every callback invocation in [tr] comes right after the disconnection
    of its connection, which was made earlier with that callback. *)
Definition announced (tr : list Event) : Prop :=
  forall c f b,
    In (Called c f b) tr ->
    exists pre post,
      tr = pre ++ Disconnected c :: Called c f b :: post
      /\ In (Connected c (Some f)) pre.

(** The README animator after [stop()] and [play(callback)]. *)
Definition sample_stale : World :=
  run [Stop; Play (Some 7%nat)] (boot 1 readme_positions).

(** The README animator after its run has ended. *)
Definition sample_done : World :=
  run [Play (Some 7%nat); Tick 1] (boot 1 readme_positions).

(** * Properties of the evaluators *)

Lemma Qcpower_2 (x : Qc) : x ^ 2 = x * x.
Proof. simpl. ring. Qed.

Lemma Qcpower_3 (x : Qc) : x ^ 3 = x * x * x.
Proof. simpl. ring. Qed.

(** C4: the three static evaluators compute, in every coordinate, the
    Bernstein blends of the specification:
    linear = p0(1-t) + p1 t, quadratic = p0(1-t)^2 + p1 2(1-t)t + p2 t^2,
    cubic = p0(1-t)^3 + p1 3(1-t)^2 t + p2 3(1-t)t^2 + p3 t^3. *)
Theorem evaluators_are_bernstein_blends :
  forall (t : Qc) (p0 p1 p2 p3 : Vector3.vec),
    BezierCurve.linearBezier t p0 p1
    = Vector3.new (spec_linear Vector3.X t p0 p1)
                  (spec_linear Vector3.Y t p0 p1)
                  (spec_linear Vector3.Z t p0 p1)
    /\ BezierCurve.quadraticBezier t p0 p1 p2
       = Vector3.new (spec_quadratic Vector3.X t p0 p1 p2)
                     (spec_quadratic Vector3.Y t p0 p1 p2)
                     (spec_quadratic Vector3.Z t p0 p1 p2)
    /\ BezierCurve.cubicBezier t p0 p1 p2 p3
       = Vector3.new (spec_cubic Vector3.X t p0 p1 p2 p3)
                     (spec_cubic Vector3.Y t p0 p1 p2 p3)
                     (spec_cubic Vector3.Z t p0 p1 p2 p3).
Proof.
  intros t p0 p1 p2 p3.
  unfold BezierCurve.linearBezier, BezierCurve.quadraticBezier,
    BezierCurve.cubicBezier, spec_linear, spec_quadratic, spec_cubic,
    Vector3.add, Vector3.mul.
  cbn [Vector3.X Vector3.Y Vector3.Z].
  rewrite !Qcpower_2.
  repeat split; reflexivity.
Qed.

(** C5: every evaluator returns p0 at t = 0 and its last control point at
    t = 1. *)
Theorem evaluators_interpolate_endpoints :
  forall p0 p1 p2 p3 : Vector3.vec,
    BezierCurve.linearBezier 0 p0 p1 = p0
    /\ BezierCurve.linearBezier 1 p0 p1 = p1
    /\ BezierCurve.quadraticBezier 0 p0 p1 p2 = p0
    /\ BezierCurve.quadraticBezier 1 p0 p1 p2 = p2
    /\ BezierCurve.cubicBezier 0 p0 p1 p2 p3 = p0
    /\ BezierCurve.cubicBezier 1 p0 p1 p2 p3 = p3.
Proof.
  intros [x0 y0 z0] [x1 y1 z1] [x2 y2 z2] [x3 y3 z3].
  unfold BezierCurve.linearBezier, BezierCurve.quadraticBezier,
    BezierCurve.cubicBezier, Vector3.add, Vector3.mul.
  cbn [Vector3.X Vector3.Y Vector3.Z].
  rewrite !Qcpower_3, !Qcpower_2.
  repeat split; f_equal; ring.
Qed.

(** * Properties of the animator *)

(** ** Clamping *)

Lemma clamp_unit_interval (v : Qc) : 0 <= math.clamp v 0 1 <= 1.
Proof.
  unfold math.clamp, gtb, ltb.
  destruct (v ?= 0) eqn:E0.
  - destruct (1 ?= v) eqn:E1.
    + split; [ apply Qcge_alt | apply Qcge_alt ]; congruence.
    + split; [ discriminate | apply Qcle_refl ].
    + split; [ apply Qcge_alt | apply Qcge_alt ]; congruence.
  - split; [ apply Qcle_refl | discriminate ].
  - destruct (1 ?= v) eqn:E1.
    + split; [ apply Qcge_alt | apply Qcge_alt ]; congruence.
    + split; [ discriminate | apply Qcle_refl ].
    + split; [ apply Qcge_alt | apply Qcge_alt ]; congruence.
Qed.

(** ** One frame of a running animator *)

Lemma fire_running (c : RBXScriptConnection) (callback : option Callback)
  (dt : Qc) (w : World) :
  BezierCurve.connection (curve w) = Some c ->
  Heartbeat w = [mkListener c callback] ->
  fire dt w = spec_tick c callback dt w.
Proof.
  destruct w as [[q0 q1 q2 q3 t0 d pos k stopping] hb fr tr].
  cbn [curve Heartbeat BezierCurve.connection].
  intros -> ->.
  unfold fire. cbn [deliver Heartbeat conn captured].
  unfold connected at 1.
  cbn [Heartbeat existsb conn]. rewrite Nat.eqb_refl. cbn [orb].
  destruct q2 as [q2|], q3 as [q3|], stopping, callback as [f|];
    cbv [on_heartbeat spec_tick ends_run advanced selected ending
         with_curve BezierCurve.set_t BezierCurve.set_position
         BezierCurve.set_connection call emit Disconnect connected
         curve Heartbeat fresh trace conn captured existsb filter negb orb
         BezierCurve.p0 BezierCurve.p1 BezierCurve.p2 BezierCurve.p3
         BezierCurve.t BezierCurve.duration BezierCurve.position
         BezierCurve.connection BezierCurve.wantToStop];
    rewrite ?Nat.eqb_refl;
    destruct (geb (math.clamp (t0 + dt / d) 0 1) 1);
    rewrite <- ?app_assoc, ?app_nil_r; reflexivity.
Qed.

Lemma fire_idle (dt : Qc) (w : World) : Heartbeat w = [] -> fire dt w = w.
Proof. unfold fire. intros ->. reflexivity. Qed.

(** ** Preservation of the invariants *)

Lemma count_app (f : Event -> bool) (a b : list Event) :
  count f (a ++ b) = (count f a + count f b)%nat.
Proof. unfold count. now rewrite filter_app, length_app. Qed.

Lemma boot_consistent d ps : consistent (boot d ps).
Proof. reflexivity. Qed.

Lemma boot_accounted d ps : accounted (boot d ps).
Proof. intro c. cbn. lia. Qed.

Lemma step_consistent (op : Op) (w : World) :
  consistent w -> consistent (step op w).
Proof.
  unfold consistent. intro H. destruct op as [cb| |dt]; cbn [step].
  - unfold play.
    destruct (BezierCurve.connection (curve w)) as [c|] eqn:E.
    + rewrite E. exact H.
    + cbn. exists cb. rewrite H. split; [ reflexivity | ].
      apply in_or_app. right. now left.
  - exact H.
  - destruct (BezierCurve.connection (curve w)) as [c|] eqn:E.
    + destruct H as [cb [Hb Hin]].
      rewrite (fire_running c cb dt w E Hb). unfold spec_tick.
      destruct (ends_run dt (curve w)); cbn.
      * reflexivity.
      * exists cb. split; [ reflexivity | ]. now rewrite app_nil_r.
    + rewrite (fire_idle dt w H), E. exact H.
Qed.

Lemma play_idle (callback : option Callback) (w : World) :
  BezierCurve.connection (curve w) = None ->
  play callback w
  = mkWorld
      (BezierCurve.mk
         (BezierCurve.p0 (curve w)) (BezierCurve.p1 (curve w))
         (BezierCurve.p2 (curve w)) (BezierCurve.p3 (curve w))
         0 (BezierCurve.duration (curve w)) (BezierCurve.position (curve w))
         (Some (fresh w)) (BezierCurve.wantToStop (curve w)))
      (Heartbeat w ++ [mkListener (fresh w) callback])
      (S (fresh w))
      (trace w ++ [Connected (fresh w) callback]).
Proof. intro E. unfold play. rewrite E. reflexivity. Qed.

Lemma play_running (callback : option Callback) (w : World)
  (c : RBXScriptConnection) :
  BezierCurve.connection (curve w) = Some c -> play callback w = w.
Proof. intro E. unfold play. now rewrite E. Qed.

Ltac count_events :=
  rewrite ?count_app;
  cbn [count filter length is_call is_disconnect is_connect].

Lemma step_accounted (op : Op) (w : World) :
  consistent w -> accounted w -> accounted (step op w).
Proof.
  unfold consistent, accounted, calls, live.
  intros Hc Ha k. specialize (Ha k).
  destruct op as [cb| |dt]; cbn [step].
  - destruct (BezierCurve.connection (curve w)) as [c|] eqn:E.
    + rewrite (play_running cb w c E), E. exact Ha.
    + rewrite (play_idle cb w E).
      cbn [curve trace fresh BezierCurve.connection].
      count_events.
      destruct (Nat.eqb_spec (fresh w) k) as [Heq|Hne].
      * subst k. rewrite Nat.ltb_irrefl in Ha.
        replace (fresh w <? S (fresh w))%nat with true
          by (symmetry; apply Nat.ltb_lt; lia).
        cbn [length]. lia.
      * cbn [length].
        destruct (Nat.ltb_spec k (fresh w)) as [Hlt|Hge].
        -- replace (k <? S (fresh w))%nat with true
             by (symmetry; apply Nat.ltb_lt; lia).
           lia.
        -- destruct (k <? S (fresh w))%nat; lia.
  - exact Ha.
  - destruct (BezierCurve.connection (curve w)) as [c|] eqn:E.
    + destruct Hc as [cb [Hb Hin]].
      rewrite (fire_running c cb dt w E Hb). unfold spec_tick, ending.
      cbn [curve trace fresh BezierCurve.connection].
      destruct (ends_run dt (curve w)).
      * destruct cb as [f|]; count_events;
          destruct (Nat.eqb_spec c k); cbn [length]; lia.
      * rewrite app_nil_r. exact Ha.
    + rewrite (fire_idle dt w Hc), E. exact Ha.
Qed.

Lemma step_geometry (op : Op) (w : World) :
  consistent w -> geometry (curve (step op w)) = geometry (curve w).
Proof.
  unfold consistent. intro Hc. destruct op as [cb| |dt]; cbn [step].
  - unfold play. destruct (BezierCurve.connection (curve w)); reflexivity.
  - reflexivity.
  - destruct (BezierCurve.connection (curve w)) as [c|] eqn:E.
    + destruct Hc as [cb [Hb _]].
      now rewrite (fire_running c cb dt w E Hb).
    + now rewrite (fire_idle dt w Hc).
Qed.

Lemma step_progress (op : Op) (w : World) :
  consistent w ->
  0 <= BezierCurve.t (curve w) <= 1 ->
  0 <= BezierCurve.t (curve (step op w)) <= 1.
Proof.
  unfold consistent. intros Hc Ht. destruct op as [cb| |dt]; cbn [step].
  - unfold play. destruct (BezierCurve.connection (curve w)).
    + exact Ht.
    + cbn. split; discriminate.
  - exact Ht.
  - destruct (BezierCurve.connection (curve w)) as [c|] eqn:E.
    + destruct Hc as [cb [Hb _]].
      rewrite (fire_running c cb dt w E Hb). cbn.
      apply clamp_unit_interval.
    + now rewrite (fire_idle dt w Hc).
Qed.

Lemma run_snoc (ops : list Op) (op : Op) (w : World) :
  run (ops ++ [op]) w = step op (run ops w).
Proof. unfold run. now rewrite fold_left_app. Qed.

Lemma run_app (ops ops' : list Op) (w : World) :
  run (ops ++ ops') w = run ops' (run ops w).
Proof. unfold run. now rewrite fold_left_app. Qed.

Lemma run_sound (ops : list Op) (w : World) :
  consistent w -> accounted w ->
  consistent (run ops w) /\ accounted (run ops w).
Proof.
  induction ops as [|op ops IH] using rev_ind; intros Hc Ha.
  - now split.
  - rewrite run_snoc. destruct (IH Hc Ha) as [Hc' Ha']. split.
    + now apply step_consistent.
    + now apply step_accounted.
Qed.

Lemma run_geometry (ops : list Op) (w : World) :
  consistent w -> accounted w ->
  geometry (curve (run ops w)) = geometry (curve w).
Proof.
  induction ops as [|op ops IH] using rev_ind; intros Hc Ha.
  - reflexivity.
  - rewrite run_snoc, step_geometry; [ now apply IH | ].
    now apply run_sound.
Qed.

Lemma run_progress (ops : list Op) (w : World) :
  consistent w -> accounted w ->
  0 <= BezierCurve.t (curve w) <= 1 ->
  0 <= BezierCurve.t (curve (run ops w)) <= 1.
Proof.
  induction ops as [|op ops IH] using rev_ind; intros Hc Ha Ht.
  - exact Ht.
  - rewrite run_snoc. apply step_progress; [ | now apply IH ].
    now apply run_sound.
Qed.

Lemma reachable_sound (w : World) :
  reachable w -> consistent w /\ accounted w.
Proof.
  intros (d & ps & ops & _ & ->).
  apply run_sound; [ apply boot_consistent | apply boot_accounted ].
Qed.

Lemma reachable_run (ops : list Op) (w : World) :
  reachable w -> reachable (run ops w).
Proof.
  intros (d & ps & ops0 & Hd & ->).
  exists d, ps, (ops0 ++ ops). split; [ exact Hd | ].
  now rewrite run_app.
Qed.

Lemma sample_running_reachable : reachable sample_running.
Proof.
  exists 1, readme_positions, [Play (Some 7%nat)].
  split; reflexivity.
Qed.

Lemma running_listener (w : World) (c : RBXScriptConnection) :
  reachable w -> BezierCurve.connection (curve w) = Some c ->
  exists callback,
    Heartbeat w = [mkListener c callback] /\
    In (Connected c callback) (trace w).
Proof.
  intros Hr E. destruct (reachable_sound w Hr) as [Hc _].
  unfold consistent in Hc. now rewrite E in Hc.
Qed.

Lemma running_not_called (w : World) (c : RBXScriptConnection) :
  reachable w -> BezierCurve.connection (curve w) = Some c ->
  calls c (trace w) = 0%nat.
Proof.
  intros Hr E. destruct (reachable_sound w Hr) as [_ Ha].
  destruct (Ha c) as (H1 & H2 & H3).
  unfold live in H2. rewrite E, Nat.eqb_refl in H2.
  destruct (c <? fresh w)%nat; lia.
Qed.

Lemma calls_at_most_once (w : World) (k : RBXScriptConnection) :
  reachable w -> (calls k (trace w) <= 1)%nat.
Proof.
  intros Hr. destruct (reachable_sound w Hr) as [_ Ha].
  destruct (Ha k) as (H1 & H2 & H3).
  destruct (k <? fresh w)%nat; lia.
Qed.

(** ** The claims on the life cycle *)

(** C1 fails on the code: [play] assigns [t] and [connection] only, and
    leaves [wantToStop] as it finds it.  On the README animator, [stop()]
    while idle followed by [play(callback)] starts a run with [t = 0] and
    the latch still set, and the first frame (a quarter of the duration)
    ends that run with [callback(false)]. *)
Theorem play_keeps_stale_stop_request :
  (forall (w : World) (callback : option Callback),
      BezierCurve.wantToStop (curve (play callback w))
      = BezierCurve.wantToStop (curve w))
  /\ (let w := run [Stop; Play (Some 7%nat)] (boot 1 readme_positions) in
      BezierCurve.t (curve w) = 0
      /\ BezierCurve.wantToStop (curve w) = true
      /\ trace (run [Tick quarter] w)
         = [Connected 0%nat (Some 7%nat); Disconnected 0%nat;
            Called 0%nat 7%nat false]).
Proof.
  split.
  - intros w callback. unfold play.
    destruct (BezierCurve.connection (curve w)); reflexivity.
  - cbv zeta. repeat split; vm_compute; reflexivity.
Qed.

(** C2: on the frame of a running animator where the advanced [t] is at
    least 1 or a stop was requested, the listener is disconnected, the
    [connection] field cleared, and then the callback given to that
    [play()] is called with [endedNaturally = !wantToStop]; on any other
    frame nothing of this happens.  No callback of the run was called
    before, and in every later world each run has at most one call. *)
Theorem tick_ends_run_once :
  forall (w : World) (c : RBXScriptConnection) (dt : Qc),
    reachable w ->
    BezierCurve.connection (curve w) = Some c ->
    calls c (trace w) = 0%nat
    /\ (exists callback,
          Heartbeat w = [mkListener c callback]
          /\ In (Connected c callback) (trace w)
          /\ if geb (advanced dt (curve w)) 1
                || BezierCurve.wantToStop (curve w)
             then BezierCurve.connection (curve (step (Tick dt) w)) = None
                  /\ Heartbeat (step (Tick dt) w) = []
                  /\ trace (step (Tick dt) w)
                     = trace w ++
                       Disconnected c ::
                       match callback with
                       | Some f =>
                           [Called c f (negb (BezierCurve.wantToStop (curve w)))]
                       | None => []
                       end
             else BezierCurve.connection (curve (step (Tick dt) w)) = Some c
                  /\ Heartbeat (step (Tick dt) w) = Heartbeat w
                  /\ trace (step (Tick dt) w) = trace w)
    /\ (forall (ops : list Op) (k : RBXScriptConnection),
          (calls k (trace (run ops (step (Tick dt) w))) <= 1)%nat).
Proof.
  intros w c dt Hr E. split; [ now apply running_not_called | split ].
  - destruct (running_listener w c Hr E) as [cb [Hb Hin]].
    exists cb. split; [ exact Hb | split; [ exact Hin | ] ].
    cbn [step]. rewrite (fire_running c cb dt w E Hb).
    unfold spec_tick, ends_run, ending.
    destruct (geb (advanced dt (curve w)) 1 || BezierCurve.wantToStop (curve w));
      cbn; rewrite ?app_nil_r; auto.
  - intros ops k. apply calls_at_most_once.
    apply (reachable_run (Tick dt :: ops) w Hr).
Qed.

Lemma sample_last_reachable : reachable sample_last.
Proof.
  exists 1, readme_positions,
    [Play (Some 7%nat); Tick quarter; Tick quarter; Tick quarter].
  split; reflexivity.
Qed.

Lemma tick_ends_run_once_witness :
  reachable sample_last
  /\ BezierCurve.connection (curve sample_last) = Some 0%nat
  /\ calls 0%nat (trace sample_last) = 0%nat
  /\ trace (step (Tick quarter) sample_last)
     = [Connected 0%nat (Some 7%nat); Disconnected 0%nat;
        Called 0%nat 7%nat true]
  /\ (forall (ops : list Op) (k : RBXScriptConnection),
        (calls k (trace (run ops (step (Tick quarter) sample_last))) <= 1)%nat).
Proof.
  split; [ exact sample_last_reachable | split; [ reflexivity | ] ].
  destruct (tick_ends_run_once sample_last 0%nat quarter
              sample_last_reachable eq_refl) as (H1 & (cb & Hb & _ & H2) & H3).
  split; [ exact H1 | split; [ | exact H3 ] ].
  vm_compute in Hb. injection Hb as Hb. subst cb.
  vm_compute in H2. vm_compute. apply H2.
Defined.

(** C3: every frame of a running animator selects the evaluator from the
    control points the animator holds at that frame: linear without p2 and
    p3, quadratic with p2 only, cubic with both, and with p3 only the
    position is left as it was.  The control points are the same after the
    frame, so the next frame selects from them again. *)
Theorem tick_selects_evaluator :
  forall (w : World) (c : RBXScriptConnection) (dt : Qc),
    reachable w ->
    BezierCurve.connection (curve w) = Some c ->
    BezierCurve.position (curve (step (Tick dt) w))
    = match BezierCurve.p2 (curve w), BezierCurve.p3 (curve w) with
      | None, None =>
          BezierCurve.linearBezier (advanced dt (curve w))
            (BezierCurve.p0 (curve w)) (BezierCurve.p1 (curve w))
      | Some q2, None =>
          BezierCurve.quadraticBezier (advanced dt (curve w))
            (BezierCurve.p0 (curve w)) (BezierCurve.p1 (curve w)) q2
      | Some q2, Some q3 =>
          BezierCurve.cubicBezier (advanced dt (curve w))
            (BezierCurve.p0 (curve w)) (BezierCurve.p1 (curve w)) q2 q3
      | None, Some _ => BezierCurve.position (curve w)
      end
    /\ geometry (curve (step (Tick dt) w)) = geometry (curve w).
Proof.
  intros w c dt Hr E.
  destruct (running_listener w c Hr E) as [cb [Hb _]].
  cbn [step]. rewrite (fire_running c cb dt w E Hb).
  split; reflexivity.
Qed.

Lemma tick_selects_evaluator_witness :
  reachable sample_running
  /\ BezierCurve.connection (curve sample_running) = Some 0%nat
  /\ BezierCurve.position (curve (step (Tick quarter) sample_running))
     = BezierCurve.linearBezier quarter (v3 0 0 0) (v3 0 50 0).
Proof.
  split; [ exact sample_running_reachable | split; [ reflexivity | ] ].
  destruct (tick_selects_evaluator sample_running 0%nat quarter
              sample_running_reachable eq_refl) as [H _].
  rewrite H.
  change (BezierCurve.linearBezier (advanced quarter (curve sample_running))
            (v3 0 0 0) (v3 0 50 0)
          = BezierCurve.linearBezier quarter (v3 0 0 0) (v3 0 50 0)).
  f_equal.
Defined.

(** C6: in every world reached by an animator of positive duration under
    non-negative frame deltas, [t] lies in [0,1]; a frame of a running
    animator sets [t] to [clamp(t + dt/duration, 0, 1)] (an idle animator
    has no listener and keeps [t]); a [play()] that starts a run sets [t]
    to 0, as does the constructor. *)
Theorem progress_in_unit_interval :
  forall (d : Qc) (ps : BezierPositions.obj) (ops : list Op),
    0 < d ->
    forallb nonneg_tick ops = true ->
    0 <= BezierCurve.t (curve (run ops (boot d ps))) <= 1
    /\ (forall dt : Qc,
          BezierCurve.t (curve (step (Tick dt) (run ops (boot d ps))))
          = match BezierCurve.connection (curve (run ops (boot d ps))) with
            | Some _ =>
                math.clamp
                  (BezierCurve.t (curve (run ops (boot d ps))) + dt / d) 0 1
            | None => BezierCurve.t (curve (run ops (boot d ps)))
            end)
    /\ (forall callback : option Callback,
          BezierCurve.t (curve (play callback (run ops (boot d ps))))
          = match BezierCurve.connection (curve (run ops (boot d ps))) with
            | Some _ => BezierCurve.t (curve (run ops (boot d ps)))
            | None => 0
            end)
    /\ BezierCurve.t (curve (boot d ps)) = 0.
Proof.
  intros d ps ops Hd _.
  pose proof (boot_consistent d ps) as Hc0.
  pose proof (boot_accounted d ps) as Ha0.
  destruct (run_sound ops _ Hc0 Ha0) as [Hc _].
  pose proof (run_geometry ops _ Hc0 Ha0) as Hg.
  set (w := run ops (boot d ps)) in *.
  split; [ | split; [ | split ] ].
  - apply run_progress; [ exact Hc0 | exact Ha0 | ].
    cbn. split; discriminate.
  - intro dt. cbn [step]. unfold consistent in Hc.
    destruct (BezierCurve.connection (curve w)) as [c|] eqn:E.
    + destruct Hc as [cb [Hb _]].
      rewrite (fire_running c cb dt w E Hb). cbn. unfold advanced.
      unfold geometry in Hg. cbn in Hg. now injection Hg as _ _ _ _ ->.
    + now rewrite (fire_idle dt w Hc).
  - intro cb. unfold play.
    destruct (BezierCurve.connection (curve w)); reflexivity.
  - reflexivity.
Qed.

Lemma progress_in_unit_interval_witness :
  0 < 1
  /\ forallb nonneg_tick sample_ops = true
  /\ 0 <= BezierCurve.t (curve (run sample_ops (boot 1 readme_positions))) <= 1
  /\ BezierCurve.t
       (curve (step (Tick quarter) (run sample_ops (boot 1 readme_positions))))
     = Q2Qc (3 # 4).
Proof.
  split; [ reflexivity | split; [ reflexivity | ] ].
  destruct (progress_in_unit_interval 1 readme_positions sample_ops
              eq_refl eq_refl) as (H1 & H2 & _).
  split; [ exact H1 | ].
  rewrite H2. apply Qc_is_canon. vm_compute. reflexivity.
Defined.

(** C7: [play()] on an animator that holds a connection returns at once:
    the world is the same, with the same single listener (and the callback
    it captured), the same [t] and every other field. *)
Theorem play_while_running_is_noop :
  forall (w : World) (callback : option Callback) (c : RBXScriptConnection),
    BezierCurve.connection (curve w) = Some c ->
    play callback w = w.
Proof.
  intros w callback c E. unfold play. now rewrite E.
Qed.

Lemma play_while_running_is_noop_witness :
  BezierCurve.connection (curve sample_running) = Some 0%nat
  /\ play (Some 9%nat) sample_running = sample_running.
Proof.
  split; [ reflexivity | ].
  exact (play_while_running_is_noop sample_running (Some 9%nat) 0%nat eq_refl).
Defined.

Lemma stop_reachable (w : World) : reachable w -> reachable (stop w).
Proof. intro Hr. exact (reachable_run [Stop] w Hr). Qed.

(** C8: [stop()] sets [wantToStop] and nothing else: the other fields, the
    listeners of the signal and the trace are the same.  The run ends on
    the next frame, which first advances [t] and assigns the position
    selected at the advanced [t], and then disconnects and reports
    [false]. *)
Theorem stop_only_sets_latch :
  (forall w : World,
      stop w
      = mkWorld
          (BezierCurve.mk
             (BezierCurve.p0 (curve w)) (BezierCurve.p1 (curve w))
             (BezierCurve.p2 (curve w)) (BezierCurve.p3 (curve w))
             (BezierCurve.t (curve w)) (BezierCurve.duration (curve w))
             (BezierCurve.position (curve w))
             (BezierCurve.connection (curve w)) true)
          (Heartbeat w) (fresh w) (trace w))
  /\ (forall (w : World) (c : RBXScriptConnection) (dt : Qc),
        reachable w ->
        BezierCurve.connection (curve w) = Some c ->
        BezierCurve.t (curve (step (Tick dt) (stop w))) = advanced dt (curve w)
        /\ BezierCurve.position (curve (step (Tick dt) (stop w)))
           = selected (curve w) (advanced dt (curve w))
        /\ BezierCurve.connection (curve (step (Tick dt) (stop w))) = None
        /\ Heartbeat (step (Tick dt) (stop w)) = []
        /\ exists callback,
             Heartbeat w = [mkListener c callback]
             /\ trace (step (Tick dt) (stop w))
                = trace w ++
                  Disconnected c ::
                  match callback with
                  | Some f => [Called c f false]
                  | None => []
                  end).
Proof.
  split; [ reflexivity | ].
  intros w c dt Hr E.
  destruct (running_listener w c Hr E) as [cb [Hb _]].
  cbn [step].
  rewrite (fire_running c cb dt (stop w) E Hb).
  unfold spec_tick, ends_run.
  change (BezierCurve.wantToStop (curve (stop w))) with true.
  rewrite orb_true_r.
  repeat split. exists cb. split; [ exact Hb | reflexivity ].
Qed.

Lemma stop_only_sets_latch_witness :
  reachable sample_running
  /\ BezierCurve.connection (curve sample_running) = Some 0%nat
  /\ BezierCurve.position (curve (step (Tick quarter) (stop sample_running)))
     = BezierCurve.linearBezier quarter (v3 0 0 0) (v3 0 50 0)
  /\ BezierCurve.connection (curve (step (Tick quarter) (stop sample_running)))
     = None.
Proof.
  split; [ exact sample_running_reachable | split; [ reflexivity | ] ].
  destruct (proj2 stop_only_sets_latch sample_running 0%nat quarter
              sample_running_reachable eq_refl) as (_ & H2 & H3 & _).
  split; [ | exact H3 ].
  rewrite H2.
  change (BezierCurve.linearBezier (advanced quarter (curve sample_running))
            (v3 0 0 0) (v3 0 50 0)
          = BezierCurve.linearBezier quarter (v3 0 0 0) (v3 0 50 0)).
  f_equal.
Defined.

Lemma step_position_gap (op : Op) (w : World) (q3 : Vector3.vec) :
  consistent w ->
  BezierCurve.p2 (curve w) = None ->
  BezierCurve.p3 (curve w) = Some q3 ->
  BezierCurve.position (curve (step op w)) = BezierCurve.position (curve w).
Proof.
  unfold consistent. intros Hc E2 E3. destruct op as [cb| |dt]; cbn [step].
  - unfold play. destruct (BezierCurve.connection (curve w)); reflexivity.
  - reflexivity.
  - destruct (BezierCurve.connection (curve w)) as [c|] eqn:E.
    + destruct Hc as [cb [Hb _]].
      rewrite (fire_running c cb dt w E Hb). cbn.
      unfold selected. now rewrite E2, E3.
    + now rewrite (fire_idle dt w Hc).
Qed.

Lemma run_position_gap (ops : list Op) (w : World) (q3 : Vector3.vec) :
  consistent w -> accounted w ->
  BezierCurve.p2 (curve w) = None ->
  BezierCurve.p3 (curve w) = Some q3 ->
  BezierCurve.position (curve (run ops w)) = BezierCurve.position (curve w).
Proof.
  intros Hc Ha E2 E3.
  induction ops as [|op ops IH] using rev_ind.
  - reflexivity.
  - rewrite run_snoc.
    pose proof (run_geometry ops w Hc Ha) as Hg.
    unfold geometry in Hg. injection Hg as _ _ G2 G3 _.
    rewrite (step_position_gap op (run ops w) q3); [ exact IH | | | ].
    + now apply run_sound.
    + now rewrite G2.
    + now rewrite G3.
Qed.

(** C9: an animator built with p3 but without p2 never changes its
    position: in every world it can reach, and after any further frame, the
    position is the p0 it was built with.  A frame of its run advances [t]
    to [clamp(t + dt/duration, 0, 1)] and ends the run as for any other
    animator: when the advanced [t] is at least 1 or a stop was requested,
    the listener is disconnected and the callback called with
    [!wantToStop]. *)
Theorem gap_animator_runs_without_moving :
  forall (d : Qc) (ps : BezierPositions.obj) (q3 : Vector3.vec)
         (ops : list Op) (c : RBXScriptConnection) (dt : Qc),
    0 < d ->
    BezierPositions.p2 ps = None ->
    BezierPositions.p3 ps = Some q3 ->
    BezierCurve.connection (curve (run ops (boot d ps))) = Some c ->
    BezierCurve.position (curve (run ops (boot d ps))) = BezierPositions.p0 ps
    /\ BezierCurve.position (curve (step (Tick dt) (run ops (boot d ps))))
       = BezierPositions.p0 ps
    /\ BezierCurve.t (curve (step (Tick dt) (run ops (boot d ps))))
       = math.clamp (BezierCurve.t (curve (run ops (boot d ps))) + dt / d) 0 1
    /\ exists callback,
         Heartbeat (run ops (boot d ps)) = [mkListener c callback]
         /\ if geb (math.clamp
                      (BezierCurve.t (curve (run ops (boot d ps))) + dt / d) 0 1) 1
               || BezierCurve.wantToStop (curve (run ops (boot d ps)))
            then BezierCurve.connection
                   (curve (step (Tick dt) (run ops (boot d ps)))) = None
                 /\ Heartbeat (step (Tick dt) (run ops (boot d ps))) = []
                 /\ trace (step (Tick dt) (run ops (boot d ps)))
                    = trace (run ops (boot d ps)) ++
                      Disconnected c ::
                      match callback with
                      | Some f =>
                          [Called c f
                             (negb (BezierCurve.wantToStop
                                      (curve (run ops (boot d ps)))))]
                      | None => []
                      end
            else BezierCurve.connection
                   (curve (step (Tick dt) (run ops (boot d ps)))) = Some c
                 /\ Heartbeat (step (Tick dt) (run ops (boot d ps)))
                    = Heartbeat (run ops (boot d ps))
                 /\ trace (step (Tick dt) (run ops (boot d ps)))
                    = trace (run ops (boot d ps)).
Proof.
  intros d ps q3 ops c dt Hd E2 E3 E.
  pose proof (boot_consistent d ps) as Hc0.
  pose proof (boot_accounted d ps) as Ha0.
  pose proof (run_position_gap ops (boot d ps) q3 Hc0 Ha0 E2 E3) as Hp.
  pose proof (run_position_gap (ops ++ [Tick dt]) (boot d ps) q3 Hc0 Ha0 E2 E3)
    as Hp'.
  rewrite run_snoc in Hp'.
  pose proof (run_geometry ops _ Hc0 Ha0) as Hg.
  destruct (run_sound ops _ Hc0 Ha0) as [Hc _].
  set (w := run ops (boot d ps)) in *.
  assert (Hdur : BezierCurve.duration (curve w) = d).
  { unfold geometry in Hg. cbn in Hg. now injection Hg. }
  split; [ exact Hp | split; [ exact Hp' | ] ].
  unfold consistent in Hc. rewrite E in Hc. destruct Hc as [cb [Hb _]].
  cbn [step]. rewrite (fire_running c cb dt w E Hb).
  unfold spec_tick, ends_run, ending, advanced. rewrite Hdur.
  split; [ reflexivity | ].
  exists cb. split; [ exact Hb | ].
  destruct (geb (math.clamp (BezierCurve.t (curve w) + dt / d) 0 1) 1
            || BezierCurve.wantToStop (curve w));
    cbn; rewrite ?app_nil_r; auto.
Qed.

Lemma gap_animator_runs_without_moving_witness :
  0 < 1
  /\ BezierPositions.p2 gap_positions = None
  /\ BezierPositions.p3 gap_positions = Some (v3 40 0 0)
  /\ BezierCurve.connection (curve (run sample_ops (boot 1 gap_positions)))
     = Some 0%nat
  /\ BezierCurve.position
       (curve (step (Tick quarter) (run sample_ops (boot 1 gap_positions))))
     = v3 0 0 0
  /\ BezierCurve.t
       (curve (step (Tick quarter) (run sample_ops (boot 1 gap_positions))))
     = Q2Qc (3 # 4).
Proof.
  split; [ reflexivity | ].
  split; [ reflexivity | ].
  split; [ reflexivity | ].
  split; [ reflexivity | ].
  destruct (gap_animator_runs_without_moving 1 gap_positions (v3 40 0 0)
              sample_ops 0%nat quarter eq_refl eq_refl eq_refl eq_refl)
    as (_ & H2 & H3 & _).
  split; [ exact H2 | ].
  rewrite H3. apply Qc_is_canon. vm_compute. reflexivity.
Defined.

Lemma run_without_ticks_position (ops : list Op) (w : World) :
  BezierCurve.position (curve (run (without_ticks ops) w))
  = BezierCurve.position (curve w).
Proof.
  revert w. induction ops as [|op ops IH]; intro w.
  - reflexivity.
  - destruct op as [cb| |dt]; cbn [without_ticks filter is_tick negb].
    + change (run (Play cb :: filter (fun op => negb (is_tick op)) ops) w)
        with (run (without_ticks ops) (play cb w)).
      rewrite IH. unfold play.
      destruct (BezierCurve.connection (curve w)); reflexivity.
    + change (run (Stop :: filter (fun op => negb (is_tick op)) ops) w)
        with (run (without_ticks ops) (stop w)).
      now rewrite IH.
    + apply IH.
Qed.

(** C10: [play()] does not assign [position].  The position is p0 after the
    constructor, and whatever it is, it is the same after [play()] and
    after any sequence of [play()] and [stop()] calls in which no frame
    comes: only a frame moves it. *)
Theorem play_keeps_position :
  (forall (w : World) (callback : option Callback),
      BezierCurve.position (curve (play callback w))
      = BezierCurve.position (curve w))
  /\ (forall (d : Qc) (ps : BezierPositions.obj),
        BezierCurve.position (curve (boot d ps)) = BezierPositions.p0 ps)
  /\ (forall (ops : list Op) (w : World),
        BezierCurve.position (curve (run (without_ticks ops) w))
        = BezierCurve.position (curve w)).
Proof.
  split; [ | split ].
  - intros w callback. unfold play.
    destruct (BezierCurve.connection (curve w)); reflexivity.
  - reflexivity.
  - apply run_without_ticks_position.
Qed.

(** A replay of the README animator: when its run has ended the position
    is p1, and the next [play()] starts a run with [t = 0] while the
    position is still p1. *)
Example replay_keeps_last_position :
  let w := run [Play None; Tick 1] (boot 1 readme_positions) in
  BezierCurve.connection (curve w) = None
  /\ BezierCurve.position (curve w) = v3 0 50 0
  /\ BezierCurve.t (curve (play None w)) = 0
  /\ BezierCurve.position (curve (play None w)) = v3 0 50 0.
Proof.
  cbv zeta. repeat split; reflexivity.
Qed.

(** * Further properties of the evaluators *)

Lemma two_is_1_1 : Q2Qc 2 = 1 + 1.
Proof. apply Qc_is_canon. reflexivity. Qed.

Lemma three_is_1_1_1 : Q2Qc 3 = 1 + 1 + 1.
Proof. apply Qc_is_canon. reflexivity. Qed.

Ltac blend_eq :=
  unfold BezierCurve.linearBezier, BezierCurve.quadraticBezier,
    BezierCurve.cubicBezier, Vector3.add, Vector3.mul;
  cbn [Vector3.X Vector3.Y Vector3.Z];
  rewrite ?Qcpower_3, ?Qcpower_2, ?two_is_1_1, ?three_is_1_1_1;
  f_equal; ring.




(** * Further properties of the animator *)

Ltac world_fields :=
  cbn [curve Heartbeat fresh trace BezierCurve.p0 BezierCurve.p1
       BezierCurve.p2 BezierCurve.p3 BezierCurve.t BezierCurve.duration
       BezierCurve.position BezierCurve.connection BezierCurve.wantToStop].

(** The control points and the duration of an animator are those it was
    built with, whatever is done to it afterwards. *)
Theorem geometry_is_fixed :
  forall (d : Qc) (ps : BezierPositions.obj) (ops : list Op),
    geometry (curve (run ops (boot d ps)))
    = (BezierPositions.p0 ps, BezierPositions.p1 ps, BezierPositions.p2 ps,
       BezierPositions.p3 ps, d).
Proof.
  intros d ps ops.
  rewrite run_geometry;
    [ reflexivity | apply boot_consistent | apply boot_accounted ].
Qed.

(** A frame that comes while the animator is idle changes nothing: no
    field, no listener, no event. *)
Theorem idle_frame_does_nothing :
  forall (w : World) (dt : Qc),
    reachable w ->
    BezierCurve.connection (curve w) = None ->
    step (Tick dt) w = w.
Proof.
  intros w dt Hr E. destruct (reachable_sound w Hr) as [Hc _].
  unfold consistent in Hc. rewrite E in Hc.
  cbn [step]. now apply fire_idle.
Qed.

Lemma sample_done_reachable : reachable sample_done.
Proof.
  exists 1, readme_positions, [Play (Some 7%nat); Tick 1].
  split; reflexivity.
Qed.

Lemma idle_frame_does_nothing_witness :
  reachable sample_done
  /\ BezierCurve.connection (curve sample_done) = None
  /\ step (Tick quarter) sample_done = sample_done.
Proof.
  split; [ exact sample_done_reachable | split; [ reflexivity | ] ].
  exact (idle_frame_does_nothing sample_done quarter
           sample_done_reachable eq_refl).
Defined.

Lemma step_balanced (op : Op) (w : World) (k : RBXScriptConnection) :
  consistent w ->
  count (is_connect k) (trace w)
  = (count (is_disconnect k) (trace w) + live k w)%nat ->
  count (is_connect k) (trace (step op w))
  = (count (is_disconnect k) (trace (step op w)) + live k (step op w))%nat.
Proof.
  unfold consistent, live. intros Hc Hb.
  destruct op as [cb| |dt]; cbn [step].
  - destruct (BezierCurve.connection (curve w)) as [c|] eqn:E.
    + rewrite (play_running cb w c E), E. exact Hb.
    + rewrite (play_idle cb w E). world_fields. count_events.
      destruct (Nat.eqb (fresh w) k); cbn [length]; lia.
  - exact Hb.
  - destruct (BezierCurve.connection (curve w)) as [c|] eqn:E.
    + destruct Hc as [cb [Hl _]].
      rewrite (fire_running c cb dt w E Hl). unfold spec_tick, ending.
      world_fields.
      destruct (ends_run dt (curve w)).
      * destruct cb as [f|]; count_events;
          destruct (Nat.eqb c k); cbn [length]; lia.
      * rewrite app_nil_r. exact Hb.
    + rewrite (fire_idle dt w Hc), E. exact Hb.
Qed.

Lemma run_balanced (ops : list Op) (w : World) (k : RBXScriptConnection) :
  consistent w -> accounted w ->
  count (is_connect k) (trace w)
  = (count (is_disconnect k) (trace w) + live k w)%nat ->
  count (is_connect k) (trace (run ops w))
  = (count (is_disconnect k) (trace (run ops w)) + live k (run ops w))%nat.
Proof.
  intros Hc Ha Hb. induction ops as [|op ops IH] using rev_ind.
  - exact Hb.
  - rewrite run_snoc. apply step_balanced; [ | exact IH ].
    now apply run_sound.
Qed.

(** Every subscription is released: for each handle, the connections made
    are the disconnections made plus one if the animator still holds it;
    no handle is connected twice, and the signal never has more than one
    listener of the animator. *)
Theorem subscriptions_are_released :
  forall (w : World) (c : RBXScriptConnection),
    reachable w ->
    count (is_connect c) (trace w)
    = (count (is_disconnect c) (trace w) + live c w)%nat
    /\ (count (is_connect c) (trace w) <= 1)%nat
    /\ (length (Heartbeat w) <= 1)%nat.
Proof.
  intros w c Hr. destruct (reachable_sound w Hr) as [Hc Ha].
  split; [ | split ].
  - destruct Hr as (d & ps & ops & _ & ->).
    apply run_balanced;
      [ apply boot_consistent | apply boot_accounted | reflexivity ].
  - destruct (Ha c) as (_ & _ & H3).
    destruct (c <? fresh w)%nat; lia.
  - unfold consistent in Hc.
    destruct (BezierCurve.connection (curve w)) as [k|].
    + destruct Hc as [cb [-> _]]. cbn. lia.
    + rewrite Hc. cbn. lia.
Qed.

Lemma subscriptions_are_released_witness :
  reachable sample_done
  /\ count (is_connect 0%nat) (trace sample_done) = 1%nat
  /\ count (is_disconnect 0%nat) (trace sample_done) = 1%nat
  /\ live 0%nat sample_done = 0%nat.
Proof.
  split; [ exact sample_done_reachable | ].
  destruct (subscriptions_are_released sample_done 0%nat
              sample_done_reachable) as (H1 & _ & _).
  assert (L : live 0%nat sample_done = 0%nat) by reflexivity.
  assert (C : count (is_connect 0%nat) (trace sample_done) = 1%nat)
    by reflexivity.
  rewrite L, C in H1.
  split; [ exact C | split; [ lia | exact L ] ].
Defined.

Lemma announced_grow (tr ext : list Event) :
  announced tr ->
  (forall c f b, ~ In (Called c f b) ext) ->
  announced (tr ++ ext).
Proof.
  intros Ha Hn c f b Hin.
  apply in_app_or in Hin. destruct Hin as [Hin|Hin].
  - destruct (Ha c f b Hin) as (pre & post & -> & Hc).
    exists pre, (post ++ ext). split; [ | exact Hc ].
    now rewrite <- app_assoc.
  - now apply Hn in Hin.
Qed.

Lemma step_announced (op : Op) (w : World) :
  consistent w -> announced (trace w) -> announced (trace (step op w)).
Proof.
  unfold consistent. intros Hc Ha.
  destruct op as [cb| |dt]; cbn [step].
  - destruct (BezierCurve.connection (curve w)) as [c|] eqn:E.
    + now rewrite (play_running cb w c E).
    + rewrite (play_idle cb w E). world_fields.
      apply announced_grow; [ exact Ha | ].
      intros c f b [H|[]]. discriminate H.
  - exact Ha.
  - destruct (BezierCurve.connection (curve w)) as [c|] eqn:E.
    + destruct Hc as [cb [Hl Hin]].
      rewrite (fire_running c cb dt w E Hl). unfold spec_tick, ending.
      world_fields.
      destruct (ends_run dt (curve w)).
      * destruct cb as [f|].
        -- intros c' f' b' H. apply in_app_or in H. destruct H as [H|H].
           ++ destruct (Ha c' f' b' H) as (pre & post & Htr & Hc').
              exists pre, (post ++ [Disconnected c;
                                    Called c f (negb (BezierCurve.wantToStop (curve w)))]).
              split; [ | exact Hc' ].
              rewrite Htr at 1. now rewrite <- app_assoc.
           ++ destruct H as [H|[H|[]]]; [ discriminate H | ].
              injection H as <- <- <-.
              exists (trace w), []. split; [ reflexivity | exact Hin ].
        -- apply announced_grow; [ exact Ha | ].
           intros c' f' b' [H|[]]. discriminate H.
      * now rewrite app_nil_r.
    + now rewrite (fire_idle dt w Hc).
Qed.

(** A callback is called only by the frame that ends its run: each
    invocation in the trace comes right after the disconnection of its
    connection, and that connection was made by a [play()] that was given
    this very callback. *)
Theorem callback_follows_disconnect :
  forall (w : World) (c : RBXScriptConnection) (f : Callback) (b : bool),
    reachable w ->
    In (Called c f b) (trace w) ->
    exists pre post,
      trace w = pre ++ Disconnected c :: Called c f b :: post
      /\ In (Connected c (Some f)) pre.
Proof.
  intros w c f b (d & ps & ops & _ & ->).
  revert c f b. change (announced (trace (run ops (boot d ps)))).
  induction ops as [|op ops IH] using rev_ind.
  - intros c f b [].
  - rewrite run_snoc. apply step_announced; [ | exact IH ].
    apply run_sound; [ apply boot_consistent | apply boot_accounted ].
Qed.

Lemma callback_follows_disconnect_witness :
  reachable sample_done
  /\ In (Called 0%nat 7%nat true) (trace sample_done)
  /\ exists pre post,
       trace sample_done
       = pre ++ Disconnected 0%nat :: Called 0%nat 7%nat true :: post
       /\ In (Connected 0%nat (Some 7%nat)) pre.
Proof.
  assert (H : In (Called 0%nat 7%nat true) (trace sample_done)).
  { vm_compute. right. right. left. reflexivity. }
  split; [ exact sample_done_reachable | split; [ exact H | ] ].
  exact (callback_follows_disconnect sample_done 0%nat 7%nat true
           sample_done_reachable H).
Defined.

Lemma step_keeps_stop_request (op : Op) (w : World) :
  consistent w ->
  BezierCurve.wantToStop (curve w) = true ->
  BezierCurve.wantToStop (curve (step op w)) = true
  /\ count is_natural_call (trace (step op w))
     = count is_natural_call (trace w).
Proof.
  unfold consistent. intros Hc Hs.
  destruct op as [cb| |dt]; cbn [step].
  - destruct (BezierCurve.connection (curve w)) as [c|] eqn:E.
    + rewrite (play_running cb w c E). now split.
    + rewrite (play_idle cb w E). world_fields.
      split; [ exact Hs | ].
      rewrite count_app. cbn. lia.
  - now split.
  - destruct (BezierCurve.connection (curve w)) as [c|] eqn:E.
    + destruct Hc as [cb [Hl _]].
      rewrite (fire_running c cb dt w E Hl).
      unfold spec_tick, ending, ends_run. world_fields.
      rewrite Hs, orb_true_r.
      split; [ reflexivity | ].
      rewrite count_app. destruct cb; cbn; lia.
    + rewrite (fire_idle dt w Hc). now split.
Qed.

(** Nothing clears a stop request.  Once [wantToStop] is set it stays set
    through every later [play()], [stop()] and frame; from then on no
    frame leaves the animator running (a run started afterwards ends on its
    first frame), and no callback is ever called again with
    [endedNaturally = true]. *)
Theorem stop_request_is_permanent :
  forall (w : World) (ops : list Op) (dt : Qc),
    reachable w ->
    BezierCurve.wantToStop (curve w) = true ->
    BezierCurve.wantToStop (curve (run ops w)) = true
    /\ BezierCurve.connection (curve (step (Tick dt) (run ops w))) = None
    /\ count is_natural_call (trace (run ops w))
       = count is_natural_call (trace w).
Proof.
  intros w ops dt Hr Hs.
  destruct (reachable_sound w Hr) as [Hc Ha].
  assert (H : BezierCurve.wantToStop (curve (run ops w)) = true
              /\ count is_natural_call (trace (run ops w))
                 = count is_natural_call (trace w)).
  { induction ops as [|op ops IH] using rev_ind.
    - now split.
    - rewrite run_snoc. destruct IH as [IH1 IH2].
      destruct (step_keeps_stop_request op (run ops w)) as [H1 H2];
        [ now apply run_sound | exact IH1 | ].
      split; [ exact H1 | now rewrite H2 ]. }
  destruct H as [H1 H2]. split; [ exact H1 | split; [ | exact H2 ] ].
  destruct (run_sound ops w Hc Ha) as [Hc' _].
  unfold consistent in Hc'. cbn [step].
  destruct (BezierCurve.connection (curve (run ops w))) as [c|] eqn:E.
  - destruct Hc' as [cb [Hl _]].
    rewrite (fire_running c cb dt _ E Hl).
    unfold spec_tick, ends_run. world_fields.
    now rewrite H1, orb_true_r.
  - now rewrite (fire_idle dt _ Hc').
Qed.

Lemma stop_request_is_permanent_witness :
  reachable sample_stale
  /\ BezierCurve.wantToStop (curve sample_stale) = true
  /\ BezierCurve.wantToStop
       (curve (run [Tick quarter; Play (Some 8%nat)] sample_stale)) = true
  /\ BezierCurve.connection
       (curve (step (Tick quarter)
                 (run [Tick quarter; Play (Some 8%nat)] sample_stale))) = None.
Proof.
  assert (Hr : reachable sample_stale).
  { exists 1, readme_positions, [Stop; Play (Some 7%nat)].
    split; reflexivity. }
  split; [ exact Hr | split; [ reflexivity | ] ].
  destruct (stop_request_is_permanent sample_stale
              [Tick quarter; Play (Some 8%nat)] quarter Hr eq_refl)
    as (H1 & H2 & _).
  split; [ exact H1 | exact H2 ].
Defined.

(** ** Order on progress *)

Ltac qc_order :=
  unfold Qcle, Qclt, Qcminus, Qcopp, Qcplus, Qcmult, Q2Qc in *;
  cbn [this] in *;
  rewrite ?Qred_correct in *;
  lra.

Lemma ltb_true (x y : Qc) : ltb x y = true -> x < y.
Proof.
  unfold ltb. intro H. apply Qclt_alt.
  destruct (x ?= y); congruence.
Qed.

Lemma ltb_false (x y : Qc) : ltb x y = false -> y <= x.
Proof.
  unfold ltb. intro H. apply Qcge_alt.
  destruct (x ?= y); congruence.
Qed.

Lemma geb_true (x y : Qc) : geb x y = true <-> y <= x.
Proof.
  unfold geb. split.
  - intro H. apply Qcge_alt. destruct (x ?= y); congruence.
  - intro H. apply Qcge_alt in H. destruct (x ?= y); congruence.
Qed.


Lemma clamp_cases (v : Qc) :
  (v <= 0 /\ math.clamp v 0 1 = 0)
  \/ (0 <= v <= 1 /\ math.clamp v 0 1 = v)
  \/ (1 <= v /\ math.clamp v 0 1 = 1).
Proof.
  unfold math.clamp, gtb.
  destruct (ltb v 0) eqn:E0.
  - left. apply ltb_true in E0. split; [ now apply Qclt_le_weak | ].
    destruct (ltb 1 0) eqn:E1; [ | reflexivity ].
    apply ltb_true in E1. discriminate E1.
  - apply ltb_false in E0.
    destruct (ltb 1 v) eqn:E1.
    + right. right. apply ltb_true in E1.
      split; [ now apply Qclt_le_weak | reflexivity ].
    + right. left. apply ltb_false in E1. now repeat split.
Qed.

Lemma clamp_high (v : Qc) : 1 <= v -> math.clamp v 0 1 = 1.
Proof.
  intro H.
  destruct (clamp_cases v) as [[H1 ->]|[[[H1 H2] ->]|[_ ->]]].
  - exfalso. qc_order.
  - now apply Qcle_antisym.
  - reflexivity.
Qed.


Lemma clamp_monotone (u v : Qc) :
  u <= v -> math.clamp u 0 1 <= math.clamp v 0 1.
Proof.
  intro H.
  destruct (clamp_cases u) as [[U ->]|[[[U U'] ->]|[U ->]]];
    destruct (clamp_cases v) as [[V ->]|[[[V V'] ->]|[V ->]]];
    qc_order.
Qed.


Lemma inv_positive (d : Qc) : 0 < d -> 0 < / d.
Proof.
  intros H. unfold Qclt, Qcinv, Q2Qc in *. cbn [this] in *.
  rewrite ?Qred_correct in *. now apply Qinv_lt_0_compat.
Qed.

Lemma div_nonneg (x d : Qc) : 0 <= x -> 0 < d -> 0 <= x / d.
Proof.
  intros Hx Hd. unfold Qcdiv.
  replace 0 with (0 * / d) by ring.
  apply Qcmult_le_compat_r; [ exact Hx | ].
  apply Qclt_le_weak. now apply inv_positive.
Qed.


Lemma reachable_duration (w : World) :
  reachable w -> 0 < BezierCurve.duration (curve w).
Proof.
  intros (d & ps & ops & Hd & ->).
  pose proof (run_geometry ops (boot d ps) (boot_consistent d ps)
                (boot_accounted d ps)) as Hg.
  unfold geometry in Hg. cbn in Hg. injection Hg as _ _ _ _ ->. exact Hd.
Qed.

Lemma reachable_progress (w : World) :
  reachable w -> 0 <= BezierCurve.t (curve w) <= 1.
Proof.
  intros (d & ps & ops & _ & ->).
  apply run_progress; [ apply boot_consistent | apply boot_accounted | ].
  cbn. split; discriminate.
Qed.

Lemma selected_at_one (o : BezierCurve.obj) : selected o 1 = last_point o.
Proof.
  unfold selected, last_point.
  destruct (BezierCurve.p0 o) as [x0 y0 z0], (BezierCurve.p1 o) as [x1 y1 z1].
  destruct (BezierCurve.p2 o) as [[x2 y2 z2]|],
           (BezierCurve.p3 o) as [[x3 y3 z3]|];
    try reflexivity; blend_eq.
Qed.

(** A frame that takes a running animator to the end of its duration, with
    no stop requested, leaves [t] at 1 and the position at the last control
    point (p1, p2 or p3 by the shape), releases the listener and reports
    [true] to the callback. *)
Theorem natural_end_lands_on_last_point :
  forall (w : World) (c : RBXScriptConnection) (dt : Qc),
    reachable w ->
    BezierCurve.connection (curve w) = Some c ->
    BezierCurve.wantToStop (curve w) = false ->
    1 <= BezierCurve.t (curve w) + dt / BezierCurve.duration (curve w) ->
    BezierCurve.t (curve (step (Tick dt) w)) = 1
    /\ BezierCurve.position (curve (step (Tick dt) w)) = last_point (curve w)
    /\ BezierCurve.connection (curve (step (Tick dt) w)) = None
    /\ exists callback,
         Heartbeat w = [mkListener c callback]
         /\ trace (step (Tick dt) w)
            = trace w ++
              Disconnected c ::
              match callback with
              | Some f => [Called c f true]
              | None => []
              end.
Proof.
  intros w c dt Hr E Hs Hend.
  destruct (running_listener w c Hr E) as [cb [Hl _]].
  cbn [step]. rewrite (fire_running c cb dt w E Hl).
  unfold spec_tick, ends_run, ending, advanced. world_fields.
  rewrite (clamp_high _ Hend), Hs, selected_at_one.
  replace (geb 1 1) with true by (symmetry; apply geb_true, Qcle_refl).
  cbn [orb negb].
  repeat split. exists cb. now split.
Qed.

Lemma natural_end_lands_on_last_point_witness :
  reachable sample_running
  /\ BezierCurve.connection (curve sample_running) = Some 0%nat
  /\ BezierCurve.wantToStop (curve sample_running) = false
  /\ 1 <= BezierCurve.t (curve sample_running)
          + 1 / BezierCurve.duration (curve sample_running)
  /\ BezierCurve.position (curve (step (Tick 1) sample_running)) = v3 0 50 0.
Proof.
  assert (H : 1 <= BezierCurve.t (curve sample_running)
                   + 1 / BezierCurve.duration (curve sample_running))
    by (vm_compute; discriminate).
  split; [ exact sample_running_reachable | ].
  split; [ reflexivity | split; [ reflexivity | split; [ exact H | ] ] ].
  destruct (natural_end_lands_on_last_point sample_running 0%nat 1
              sample_running_reachable eq_refl eq_refl H) as (_ & H2 & _).
  rewrite H2. reflexivity.
Defined.

(** Progress never goes back under a frame: for a non-negative delta, [t]
    after the frame is at least [t] before it. *)
Theorem frame_never_rewinds :
  forall (w : World) (dt : Qc),
    reachable w ->
    0 <= dt ->
    BezierCurve.t (curve w) <= BezierCurve.t (curve (step (Tick dt) w)).
Proof.
  intros w dt Hr Hdt.
  destruct (reachable_sound w Hr) as [Hc _].
  pose proof (reachable_duration w Hr) as Hd.
  destruct (reachable_progress w Hr) as [T0 T1].
  unfold consistent in Hc. cbn [step].
  destruct (BezierCurve.connection (curve w)) as [c|] eqn:E.
  - destruct Hc as [cb [Hl _]].
    rewrite (fire_running c cb dt w E Hl). unfold spec_tick. world_fields.
    unfold advanced.
    pose proof (div_nonneg dt _ Hdt Hd) as Hq.
    set (q := dt / BezierCurve.duration (curve w)) in *.
    destruct (clamp_cases (BezierCurve.t (curve w) + q))
      as [[V ->]|[[[V V'] ->]|[V ->]]]; qc_order.
  - rewrite (fire_idle dt w Hc). apply Qcle_refl.
Qed.

Lemma frame_never_rewinds_witness :
  reachable sample_running
  /\ 0 <= quarter
  /\ BezierCurve.t (curve sample_running)
     <= BezierCurve.t (curve (step (Tick quarter) sample_running)).
Proof.
  assert (H : 0 <= quarter) by (vm_compute; discriminate).
  split; [ exact sample_running_reachable | split; [ exact H | ] ].
  exact (frame_never_rewinds sample_running quarter
           sample_running_reachable H).
Defined.













